(** * yamz-2: the Flask bootstrap (app.py) and the database inspection
      script (check_db.py)

    The two source files are glue around three libraries: Flask (the
    configuration dictionary), SQLAlchemy (the [Term.query] builder and the
    SQL it emits) and the Python runtime ([print], unhandled exceptions, the
    exit status).  The embedding below writes out the part of each library
    that the two files call, and then the two files themselves on top of it.

    Conventions.
    - Text is a [string] of 8-bit characters (the bytes of its UTF-8 form);
      the database folds the case of ASCII letters only.  What Python's
      [str.isupper] says of a name rests on the Unicode character tables and
      is taken as it comes ([isupper] in [FlaskApp]).
    - The [term] table is the list of its rows in the order a sequential scan
      returns them; every query of one run sees that order.
    - A column that may hold NULL is an [option]; a comparison with NULL is
      unknown, and a WHERE clause keeps only the rows on which it is true.
    - [stdout] is the list of the arguments of the [print] calls that went
      through, oldest first; [stdout_text] is the text the terminal receives.
    - Three things can raise: loading the configuration in [create_app], a
      statement sent to the database, and a [print]. *)

From Stdlib Require Import Ascii String.
From stdpp Require Import base strings list gmap pretty.

Local Open Scope string_scope.
Local Open Scope list_scope.

(** ** Text: case folding, LIKE and ILIKE *)

Module Text.

Definition is_upper_char (c : ascii) : bool :=
  let n := nat_of_ascii c in (65 <=? n)%nat && (n <=? 90)%nat.

Definition is_lower_char (c : ascii) : bool :=
  let n := nat_of_ascii c in (97 <=? n)%nat && (n <=? 122)%nat.

Definition lower_char (c : ascii) : ascii :=
  if is_upper_char c then ascii_of_nat (nat_of_ascii c + 32) else c.

Fixpoint lower (s : string) : string :=
  match s with
  | EmptyString => EmptyString
  | String c s' => String (lower_char c) (lower s')
  end.

Fixpoint any_char (p : ascii → bool) (s : string) : bool :=
  match s with
  | EmptyString => false
  | String c s' => p c || any_char p s'
  end.

(** The text of a C string: what comes before the first NUL character. *)
Fixpoint up_to_nul (s : string) : string :=
  match s with
  | EmptyString => EmptyString
  | String c s' =>
      if Ascii.eqb c zero then EmptyString else String c (up_to_nul s')
  end.

(** The matcher behind LIKE: [%] stands for any run of characters (also the
    empty one), [_] for any single character (here: any single 8-bit
    character; the script's pattern has no [_]), every other character for
    itself. *)
Fixpoint pattern_compare (pat s : string) : bool :=
  match pat with
  | EmptyString =>
      match s with EmptyString => true | String _ _ => false end
  | String p pat' =>
      if Ascii.eqb p "%"%char then
        (fix skip (s : string) : bool :=
           pattern_compare pat' s
           || match s with
              | EmptyString => false
              | String _ s' => skip s'
              end) s
      else
        match s with
        | EmptyString => false
        | String c s' =>
            (Ascii.eqb p "_"%char || Ascii.eqb p c) && pattern_compare pat' s'
        end
  end.

(** SQL [s LIKE pat].  The operator reads its two operands as C strings, so
    a NUL character ends the text it looks at (SQLite; PostgreSQL stores no
    NUL in text at all). *)
Definition like (pat s : string) : bool :=
  pattern_compare (up_to_nul pat) (up_to_nul s).

(** [column.ilike(pat)] is rendered as [lower(column) LIKE lower(pat)]. *)
Definition ilike (pat s : string) : bool := like (lower pat) (lower s).

(** What it means for [hay] to contain [needle] when case is ignored: the
    folded needle occurs in the folded haystack. *)
Definition contains_ignoring_case (needle hay : string) : Prop :=
  ∃ pre post, lower hay = pre +:+ lower needle +:+ post.

Definition newline : string := String (ascii_of_nat 10) EmptyString.

(** [str(b)] for a [bool]. *)
Definition str_bool (b : bool) : string := if b then "True" else "False".

End Text.

(** ** check_db.py *)

Module CheckDb.
Import Text.

Section Script.

(** The [Term] model (app/term/models.py) is not part of the excerpt; the
    script reads three attributes of it.  The values of [status] are left
    open: [Status] is its type and [status_str] what [str()] gives for it.
    [Exn] is the type of the exceptions a failing statement raises. *)
Context {Status Exn : Type} (status_str : Status → string).

Record Term : Type := {
  id : Z;
  term_string : option string;
  status : Status;
}.

(** *** The SQL the query builder emits *)

Inductive Criterion : Type :=
  | term_string_eq (v : string)        (* term.term_string = :v *)
  | term_string_ilike (pat : string).  (* term.term_string ILIKE :pat *)

Definition holds (c : Criterion) (t : Term) : bool :=
  match term_string t with
  | None => false
  | Some s =>
      match c with
      | term_string_eq v => bool_decide (s = v)
      | term_string_ilike pat => ilike pat s
      end
  end.

Record Query : Type := {
  whereclause : list Criterion;
  limit_clause : option nat;
}.

Inductive Statement : Type :=
  | SELECT (q : Query)        (* SELECT term.* FROM term WHERE .. LIMIT .. *)
  | SELECT_count (q : Query)  (* SELECT count( * ) FROM (SELECT ..) *)
  | INSERT (t : Term)
  | UPDATE (w : list Criterion) (v : option string)  (* SET term_string = :v *)
  | DELETE (w : list Criterion).

Inductive Result : Type :=
  | Rows (rows : list Term)
  | Scalar (n : nat)
  | Done.

Definition selected (w : list Criterion) (t : Term) : bool :=
  forallb (λ c, holds c t) w.

Definition select_rows (q : Query) (table : list Term) : list Term :=
  let rows := List.filter (selected (whereclause q)) table in
  match limit_clause q with
  | Some n => take n rows
  | None => rows
  end.

(** The rows a statement returns and the table it leaves. *)
Definition exec (stmt : Statement) (table : list Term) : Result * list Term :=
  match stmt with
  | SELECT q => (Rows (select_rows q table), table)
  | SELECT_count q => (Scalar (length (select_rows q table)), table)
  | INSERT t => (Done, table ++ [t])
  | UPDATE w v =>
      (Done,
       map (λ t, if selected w t
                 then {| id := id t; term_string := v; status := status t |}
                 else t) table)
  | DELETE w => (Done, List.filter (λ t, negb (selected w t)) table)
  end.

Definition is_read (stmt : Statement) : bool :=
  match stmt with
  | SELECT _ | SELECT_count _ => true
  | INSERT _ | UPDATE _ _ | DELETE _ => false
  end.

(** *** The process: database, connection, standard output *)

(** [faults k = Some e]: the statement sent after [k] earlier ones fails, and
    the driver raises [e].  [print_faults k = Some e]: the [print] made after
    [k] earlier ones raises [e] (the stream cannot encode the text, the pipe
    is closed) and writes nothing.  [config_error = Some e]: loading the
    configuration raises [e].  [issued] is the statements sent so far,
    [stdout] what was printed so far. *)
Record State : Type := {
  table : list Term;
  faults : nat → option Exn;
  print_faults : nat → option Exn;
  config_error : option Exn;
  issued : list Statement;
  stdout : list string;
}.

Inductive Outcome (A : Type) : Type :=
  | Return (a : A)
  | Raise (e : Exn).
Arguments Return {A} a.
Arguments Raise {A} e.

Definition M (A : Type) : Type := State → Outcome A * State.

Definition ret {A} (a : A) : M A := λ σ, (Return a, σ).

Definition bind {A B} (m : M A) (k : A → M B) : M B := λ σ,
  match m σ with
  | (Return a, σ') => k a σ'
  | (Raise e, σ') => (Raise e, σ')
  end.

#[local] Instance M_ret : MRet M := @ret.
#[local] Instance M_bind : MBind M := λ A B k m, bind m k.

Definition print (s : string) : M unit := λ σ,
  match print_faults σ (length (stdout σ)) with
  | Some e => (Raise e, σ)
  | None =>
      (Return (),
       {| table := table σ; faults := faults σ;
          print_faults := print_faults σ; config_error := config_error σ;
          issued := issued σ; stdout := stdout σ ++ [s] |})
  end.

Definition execute (stmt : Statement) : M Result := λ σ,
  match faults σ (length (issued σ)) with
  | Some e =>
      (Raise e,
       {| table := table σ; faults := faults σ;
          print_faults := print_faults σ; config_error := config_error σ;
          issued := issued σ ++ [stmt]; stdout := stdout σ |})
  | None =>
      let '(r, table') := exec stmt (table σ) in
      (Return r,
       {| table := table'; faults := faults σ;
          print_faults := print_faults σ; config_error := config_error σ;
          issued := issued σ ++ [stmt]; stdout := stdout σ |})
  end.

(** [for x in xs: body(x)] *)
Fixpoint for_each {A} (xs : list A) (body : A → M unit) : M unit :=
  match xs with
  | [] => ret ()
  | x :: xs' => body x;; for_each xs' body
  end.

(** *** [Term.query] *)

Definition Term_query : Query :=
  {| whereclause := []; limit_clause := None |}.

(** [q.filter_by(term_string=v)] *)
Definition filter_by (v : string) (q : Query) : Query :=
  {| whereclause := whereclause q ++ [term_string_eq v];
     limit_clause := limit_clause q |}.

(** [q.filter(c)] *)
Definition filter (c : Criterion) (q : Query) : Query :=
  {| whereclause := whereclause q ++ [c]; limit_clause := limit_clause q |}.

(** [q.limit(n)] *)
Definition limit (n : nat) (q : Query) : Query :=
  {| whereclause := whereclause q; limit_clause := Some n |}.

Definition fetchall (r : Result) : list Term :=
  match r with Rows rows => rows | Scalar _ | Done => [] end.

Definition scalar (r : Result) : nat :=
  match r with Scalar n => n | Rows _ | Done => 0 end.

(** [q.all()] *)
Definition all (q : Query) : M (list Term) :=
  r ← execute (SELECT q); ret (fetchall r).

(** [q.first()]: the query with LIMIT 1, then its first row or [None]. *)
Definition first (q : Query) : M (option Term) :=
  r ← execute (SELECT (limit 1 q)); ret (head (fetchall r)).

(** [q.count()] *)
Definition count (q : Query) : M nat :=
  r ← execute (SELECT_count q); ret (scalar r).

(** *** The script *)

(** [str(x)] for an attribute that may be [None]. *)
Definition str_opt (o : option string) : string :=
  match o with Some s => s | None => "None" end.

Definition is_not_None {A} (o : option A) : bool :=
  match o with Some _ => true | None => false end.

(** The application instance; the script only opens a context on it. *)
Inductive App : Type := the_app.

(** Modelled from the spec: [create_app] lives in the [app] package, which is
    not part of the excerpt.  The spec has it build the application instance
    and attach the configuration, with no failure mode but an error while the
    configuration is loaded, which it does not handle; it sends nothing to
    the database. *)
Definition create_app : M App := λ σ,
  match config_error σ with
  | Some e => (Raise e, σ)
  | None => (Return the_app, σ)
  end.

(** [with app.app_context(): body] *)
Definition with_app_context {A} (app : App) (body : M A) : M A := body.

Definition term_line (term : Term) : string :=
  "- " +:+ str_opt (term_string term)
  +:+ " (ID: " +:+ pretty (id term)
  +:+ ", Status: " +:+ status_str (status term) +:+ ")".

Definition ice_line (term : Term) : string :=
  "- " +:+ str_opt (term_string term).

Definition check_database : M unit :=
  app ← create_app;
  with_app_context app (
    white_ice ← first (filter_by "White ice" Term_query);
    young_ice ← first (filter_by "Young ice" Term_query);
    print ("White ice exists: " +:+ str_bool (is_not_None white_ice));;
    print ("Young ice exists: " +:+ str_bool (is_not_None young_ice));;
    total ← count Term_query;
    print ("Total terms in database: " +:+ pretty total);;
    print (newline +:+ "First 10 terms:");;
    terms ← all (limit 10 Term_query);
    for_each terms (λ term, print (term_line term));;
    ice_terms ← all (filter (term_string_ilike "%ice%") Term_query);
    print (newline +:+ "Terms containing 'ice': "
           +:+ pretty (length ice_terms));;
    for_each ice_terms (λ term, print (ice_line term))).

(** [if __name__ == "__main__": check_database()]: the interpreter exits with
    status 0 when the call returns and with status 1, after the traceback,
    when an exception leaves it. *)
Definition exit_status {A} (o : Outcome A) : Z :=
  match o with Return _ => 0 | Raise _ => 1 end.

Definition main (σ : State) : Z * State :=
  let '(o, σ') := check_database σ in (exit_status o, σ').

(** What the terminal shows: every [print] writes its argument and a newline. *)
Definition stdout_text (σ : State) : string :=
  foldr (λ s acc, s +:+ newline +:+ acc) EmptyString (stdout σ).

(** A process about to start the script against [rows] over a connection
    that fails as [f] says; its configuration loads and its standard output
    takes every [print]. *)
Definition start (rows : list Term) (f : nat → option Exn) : State :=
  {| table := rows; faults := f;
     print_faults := λ _, None; config_error := None;
     issued := []; stdout := [] |}.

(** The state [σ] once [stmts] have been sent without changing the table and
    [lines] have been printed. *)
Definition after (σ : State) (stmts : list Statement) (lines : list string)
  : State :=
  {| table := table σ; faults := faults σ;
     print_faults := print_faults σ; config_error := config_error σ;
     issued := issued σ ++ stmts; stdout := stdout σ ++ lines |}.

(** A process whose configuration loads and whose standard output takes
    every [print]. *)
Definition sound (σ : State) : Prop :=
  config_error σ = None ∧ ∀ k, print_faults σ k = None.

(** What every step of the script keeps to, as a property of a computation
    [m]: from any state it only sends reads and prints, between [lo] and [hi]
    statements, and when a statement it sent has failed, the exception of
    that statement is its outcome. *)
Definition read_only {A} (lo hi : nat) (m : M A) : Prop :=
  ∀ σ, ∃ stmts lines,
    (m σ).2 = after σ stmts lines
    ∧ forallb is_read stmts = true
    ∧ (lo ≤ length stmts)%nat ∧ (length stmts ≤ hi)%nat
    ∧ ∀ j e,
        j < length stmts →
        faults σ (length (issued σ) + j) = Some e →
        (m σ).1 = Raise e.

(** The first failure among the [n] statements sent from the [k]-th on. *)
Fixpoint first_fault (f : nat → option Exn) (k n : nat) : option Exn :=
  match n with
  | 0 => None
  | S n' =>
      match f k with
      | Some e => Some e
      | None => first_fault f (S k) n'
      end
  end.

End Script.

Arguments Return {Exn A} a.
Arguments Raise {Exn A} e.

End CheckDb.

(** ** app.py *)

Module FlaskApp.
Import Text.

Section Bootstrap.

(** [Value] is the type of Python values.  An object is seen through
    [dir] and [getattr]: a finite map from attribute names to values.
    [isupper] is [str.isupper]: what it answers for a name depends on the
    Unicode character tables, which are not modelled, so it is taken as it
    comes.  [default_config] is [Flask.default_config], the settings every
    new application starts from. *)
Context {Value : Type} (isupper : string → bool)
  (default_config : gmap string Value).

Record Flask : Type := {
  import_name : string;
  config : gmap string Value;
}.

(** [Flask(import_name)] *)
Definition Flask_init (name : string) : Flask :=
  {| import_name := name; config := default_config |}.

(** [dir(obj)]: the attribute names, each once. *)
Definition dir (obj : gmap string Value) : list string :=
  (map_to_list obj).*1.

(** [getattr(obj, key)] *)
Definition getattr (obj : gmap string Value) (key : string) : option Value :=
  obj !! key.

(** [cfg.from_object(obj)]:
    [for key in dir(obj): if key.isupper(): cfg[key] = getattr(obj, key)] *)
Definition from_object (obj cfg : gmap string Value) : gmap string Value :=
  foldl (λ cfg key,
           if isupper key then
             match getattr obj key with
             | Some v => <[key:=v]> cfg
             | None => cfg
             end
           else cfg)
        cfg (dir obj).

(** [app = Flask(__name__); app.config.from_object(Config)].  [Config]
    (config.py) is not part of the excerpt and is taken as it comes. *)
Definition app (__name__ : string) (Config : gmap string Value) : Flask :=
  let app := Flask_init __name__ in
  {| import_name := import_name app;
     config := from_object Config (config app) |}.

End Bootstrap.

End FlaskApp.

(** ** app.py, line 3: [sys.path.append(os.path.dirname(__file__))] *)

Module OsPath.

(** The separator of [posixpath]. *)
Definition sep : ascii := "/"%char.

(** [s.rfind(c)]: the index of the last [c] in [s], or -1. *)
Fixpoint rfind (c : ascii) (s : string) : Z :=
  match s with
  | EmptyString => -1
  | String a s' =>
      let i := rfind c s' in
      if (0 <=? i)%Z then (i + 1)%Z
      else if Ascii.eqb a c then 0%Z else (-1)%Z
  end.

(** [s[:i]]; a negative [i] counts from the end, and the bounds are clamped. *)
Definition slice_to (i : Z) (s : string) : string :=
  let stop :=
    if (i <? 0)%Z then Z.max 0 (Z.of_nat (String.length s) + i) else i in
  substring 0 (Z.to_nat stop) s.

(** [s.rstrip(c)] for a single character [c]. *)
Fixpoint rstrip (c : ascii) (s : string) : string :=
  match s with
  | EmptyString => EmptyString
  | String a s' =>
      match rstrip c s' with
      | EmptyString =>
          if Ascii.eqb a c then EmptyString else String a EmptyString
      | String b r => String a (String b r)
      end
  end.

(** [c * n] *)
Fixpoint repeat_char (c : ascii) (n : nat) : string :=
  match n with
  | 0 => EmptyString
  | S n' => String c (repeat_char c n')
  end.

(** [posixpath.dirname]:
    [i = p.rfind(sep) + 1; head = p[:i];
     if head and head != sep*len(head): head = head.rstrip(sep);
     return head] *)
Definition dirname (p : string) : string :=
  let i := (rfind sep p + 1)%Z in
  let head := slice_to i p in
  if negb (String.eqb head EmptyString)
     && negb (String.eqb head (repeat_char sep (String.length head)))
  then rstrip sep head
  else head.

(** [sys.path.append(os.path.dirname(__file__))] on the list [sys_path]. *)
Definition extend_sys_path (__file__ : string) (sys_path : list string)
  : list string :=
  sys_path ++ [dirname __file__].

End OsPath.

(** ** Sample data *)

Module Sample.
Import CheckDb.

(** A small [term] table; [status] is shown by its name. *)
Definition sea_fog : @Term string :=
  {| id := 1; term_string := Some "Sea fog"; status := "published" |}.
Definition white_ice : @Term string :=
  {| id := 2; term_string := Some "White ice"; status := "published" |}.
Definition pack_ICE : @Term string :=
  {| id := 3; term_string := Some "Pack ICE"; status := "archived" |}.
Definition unnamed : @Term string :=
  {| id := 4; term_string := None; status := "draft" |}.

Definition rows : list (@Term string) :=
  [sea_fog; white_ice; pack_ICE; unnamed].

(** A table of [n] rows, all of them named after ice. *)
Definition numbered (n : nat) : list (@Term string) :=
  map (λ k, {| id := Z.of_nat k;
               term_string := Some ("Ice type " +:+ pretty k);
               status := "published" |})
      (seq 1 n).

(** [str(status)] *)
Definition status_name (s : string) : string := s.

(** A connection on which every statement succeeds, and one that is lost
    when the statement after [n] earlier ones is sent. *)
Definition healthy : nat → option string := λ _, None.

Definition lost_at (n : nat) : nat → option string := λ k,
  if (k =? n)%nat then Some "OperationalError" else None.

(** [str.isupper] on names written in ASCII, which is what the samples use:
    at least one upper-case letter and no lower-case one. *)
Definition isupper_ascii (s : string) : bool :=
  Text.any_char Text.is_upper_char s
  && negb (Text.any_char Text.is_lower_char s).

(** Flask defaults and a [Config] class, both cut down to two entries. *)
Definition default_config : gmap string string :=
  <["DEBUG" := "False"]> (<["TESTING" := "False"]> ∅).

Definition Config : gmap string string :=
  <["SQLALCHEMY_DATABASE_URI" := "sqlite:///yamz.db"]>
    (<["helper" := "not a setting"]> ∅).

(** Two more rows: a second ice term, and 'White ice' in lower case. *)
Definition young_ice : @Term string :=
  {| id := 5; term_string := Some "Young ice"; status := "published" |}.
Definition white_ice_lower : @Term string :=
  {| id := 6; term_string := Some "white ice"; status := "draft" |}.

(** A row whose name holds a NUL character before "ice". *)
Definition nul_ice : @Term string :=
  {| id := 7;
     term_string := Some ("a" +:+ String zero "ice");
     status := "draft" |}.


(** [sys.path] before app.py runs. *)
Definition sys_path : list string :=
  ["/usr/lib/python3"; "/usr/lib/python3/site-packages"].

End Sample.

(** * Properties *)

Import Text CheckDb.

(** ** Pattern matching *)

Section TextFacts.

Lemma append_empty_r (s : string) : s +:+ EmptyString = s.
Proof.
  induction s as [|c s IH]; [done|].
  change (String c (s +:+ EmptyString) = String c s). by rewrite IH.
Qed.

Lemma append_cons (c : ascii) (s t : string) :
  String c s +:+ t = String c (s +:+ t).
Proof. done. Qed.

Lemma append_assoc (s t u : string) : (s +:+ t) +:+ u = s +:+ (t +:+ u).
Proof.
  induction s as [|c s IH]; [done|]. rewrite !append_cons. by rewrite IH.
Qed.

Lemma pattern_compare_percent (p s : string) :
  pattern_compare (String "%" p) s
  = pattern_compare p s
    || match s with
       | EmptyString => false
       | String _ s' => pattern_compare (String "%" p) s'
       end.
Proof. by destruct s. Qed.

Lemma pattern_compare_percent_split (p s : string) :
  pattern_compare (String "%" p) s = true
  ↔ ∃ pre post, s = pre +:+ post ∧ pattern_compare p post = true.
Proof.
  split.
  - induction s as [|c s IH]; rewrite pattern_compare_percent;
      intros [H|H]%orb_true_iff.
    + by exists EmptyString, EmptyString.
    + done.
    + by exists EmptyString, (String c s).
    + destruct (IH H) as (pre & post & -> & Hp).
      by exists (String c pre), post.
  - intros (pre & post & -> & Hp).
    induction pre as [|c pre IH]; rewrite pattern_compare_percent;
      apply orb_true_iff.
    + by left.
    + by right.
Qed.

Lemma pattern_compare_percent_only (s : string) :
  pattern_compare "%" s = true.
Proof.
  apply pattern_compare_percent_split. exists s, EmptyString.
  by rewrite append_empty_r.
Qed.

(** A pattern that starts with an ordinary character consumes that
    character. *)
Lemma pattern_compare_literal (c : ascii) (p s : string) :
  Ascii.eqb c "%" = false → Ascii.eqb c "_" = false →
  pattern_compare (String c p) s = true
  ↔ ∃ s', s = String c s' ∧ pattern_compare p s' = true.
Proof.
  intros Hpc Hus. cbn [pattern_compare]. rewrite Hpc, Hus. cbn [orb].
  destruct s as [|d s].
  - split; [done|]. by intros (s' & ? & _).
  - rewrite andb_true_iff, Ascii.eqb_eq. split.
    + intros [-> H]. by exists s.
    + intros (s' & [= -> ->] & H). done.
Qed.

Lemma pattern_compare_ice (s : string) :
  pattern_compare "%ice%" s = true
  ↔ ∃ pre post, s = pre +:+ "ice" +:+ post.
Proof.
  rewrite pattern_compare_percent_split. split.
  - intros (pre & rest & -> & H).
    apply pattern_compare_literal in H as (r1 & -> & H); [|done..].
    apply pattern_compare_literal in H as (r2 & -> & H); [|done..].
    apply pattern_compare_literal in H as (r3 & -> & _); [|done..].
    by exists pre, r3.
  - intros (pre & post & ->). exists pre, ("ice" +:+ post). split; [done|].
    do 3 (apply pattern_compare_literal; [done..|eexists; split; [done|]]).
    apply pattern_compare_percent_only.
Qed.

Lemma up_to_nul_prefix (s : string) : ∃ rest, s = up_to_nul s +:+ rest.
Proof.
  induction s as [|c s [rest IH]]; [by exists EmptyString|].
  cbn [up_to_nul]. destruct (Ascii.eqb c zero).
  - by exists (String c s).
  - exists rest. rewrite append_cons. by rewrite <-IH.
Qed.

Lemma lower_char_nul (c : ascii) :
  Ascii.eqb (lower_char c) zero = Ascii.eqb c zero.
Proof. by destruct c as [[] [] [] [] [] [] [] []]. Qed.

Lemma lower_up_to_nul (s : string) :
  up_to_nul (lower s) = lower (up_to_nul s).
Proof.
  induction s as [|c s IH]; [done|].
  cbn [lower up_to_nul]. rewrite lower_char_nul.
  destruct (Ascii.eqb c zero); [done|]. cbn [lower]. by rewrite IH.
Qed.

Lemma lower_app (s t : string) : lower (s +:+ t) = lower s +:+ lower t.
Proof.
  induction s as [|c s IH]; [done|].
  rewrite append_cons. cbn [lower]. by rewrite IH.
Qed.

(** What the '%ice%' lookup sees of a text: "ice", whatever the case, before
    the first NUL. *)
Lemma ilike_ice (s : string) :
  ilike "%ice%" s = true ↔ contains_ignoring_case "ice" (up_to_nul s).
Proof.
  unfold ilike, like, contains_ignoring_case.
  rewrite (lower_up_to_nul s). apply pattern_compare_ice.
Qed.

Lemma ilike_ice_contains (s : string) :
  ilike "%ice%" s = true → contains_ignoring_case "ice" s.
Proof.
  intros (pre & post & H)%ilike_ice.
  destruct (up_to_nul_prefix s) as [rest Hrest].
  exists pre, (post +:+ lower rest).
  rewrite Hrest at 1. rewrite lower_app, H. by rewrite !append_assoc.
Qed.

Lemma up_to_nul_id (s : string) :
  any_char (λ c, Ascii.eqb c zero) s = false → up_to_nul s = s.
Proof.
  induction s as [|c s IH]; [done|]. cbn [any_char up_to_nul].
  intros [-> Hs]%orb_false_iff. by rewrite (IH Hs).
Qed.

End TextFacts.

(** ** Running the script *)

Section ScriptFacts.
Context {Status Exn : Type} (status_str : Status → string).
Local Abbreviation State := (@State Status Exn).
Local Abbreviation Term := (@Term Status).

Lemma after_nil (σ : State) : after σ [] [] = σ.
Proof. destruct σ. unfold after. cbn. by rewrite !app_nil_r. Qed.

Lemma after_after (σ : State) q1 l1 q2 l2 :
  after (after σ q1 l1) q2 l2 = after σ (q1 ++ q2) (l1 ++ l2).
Proof. unfold after. cbn. by rewrite !app_assoc. Qed.

Lemma sound_after (σ : State) qs ls : sound σ → sound (after σ qs ls).
Proof. done. Qed.


Lemma print_run (s : string) (σ : State) :
  print s σ =
    match print_faults σ (length (stdout σ)) with
    | Some e => (Raise e, σ)
    | None => (Return (), after σ [] [s])
    end.
Proof. unfold print, after. by rewrite app_nil_r. Qed.

Lemma print_after (s : string) (σ : State) :
  sound σ → print s σ = (Return (), after σ [] [s]).
Proof. intros [_ Hp]. by rewrite print_run, Hp. Qed.

Lemma for_each_print (f : Term → string) (xs : list Term) (σ : State) :
  sound σ →
  for_each xs (λ x, print (f x)) σ = (Return (), after σ [] (map f xs)).
Proof.
  revert σ. induction xs as [|x xs IH]; intros σ Hs.
  - cbn. unfold ret. by rewrite after_nil.
  - cbn [for_each]. unfold mbind, M_bind, bind.
    rewrite print_after, IH, after_after by done. done.
Qed.

Lemma execute_read (stmt : Statement) (σ : State) :
  is_read stmt = true →
  execute stmt σ =
    match faults σ (length (issued σ)) with
    | Some e => (Raise e, after σ [stmt] [])
    | None => (Return (exec stmt (table σ)).1, after σ [stmt] [])
    end.
Proof.
  intros Hr. unfold execute, after. rewrite app_nil_r.
  destruct (faults σ _); [done|].
  by destruct stmt.
Qed.


Lemma first_run (q : Query) (σ : State) :
  first q σ =
    match faults σ (length (issued σ)) with
    | Some e => (Raise e, after σ [SELECT (limit 1 q)] [])
    | None => (Return (head (select_rows (limit 1 q) (table σ))),
               after σ [SELECT (limit 1 q)] [])
    end.
Proof.
  unfold first, mbind, M_bind, bind. rewrite execute_read by done.
  by destruct (faults σ _).
Qed.

Lemma all_run (q : Query) (σ : State) :
  all q σ =
    match faults σ (length (issued σ)) with
    | Some e => (Raise e, after σ [SELECT q] [])
    | None => (Return (select_rows q (table σ)), after σ [SELECT q] [])
    end.
Proof.
  unfold all, mbind, M_bind, bind. rewrite execute_read by done.
  by destruct (faults σ _).
Qed.

Lemma count_run (q : Query) (σ : State) :
  count q σ =
    match faults σ (length (issued σ)) with
    | Some e => (Raise e, after σ [SELECT_count q] [])
    | None => (Return (length (select_rows q (table σ))),
               after σ [SELECT_count q] [])
    end.
Proof.
  unfold count, mbind, M_bind, bind. rewrite execute_read by done.
  by destruct (faults σ _).
Qed.


Lemma length_issued_after (σ : State) qs ls :
  length (issued (after σ qs ls)) = length (issued σ) + length qs.
Proof. unfold after. cbn. by rewrite length_app. Qed.

Lemma faults_after (σ : State) qs ls : faults (after σ qs ls) = faults σ.
Proof. done. Qed.

Lemma table_after (σ : State) qs ls : table (after σ qs ls) = table σ.
Proof. done. Qed.

(** The run of the script from a sound state, by the first statement that
    fails: what was sent and what was printed up to there. *)
Lemma check_database_run (σ : State) :
  sound σ →
  let k := length (issued σ) in
  let rows := table σ in
  let q1 := SELECT (limit 1 (filter_by "White ice" Term_query)) in
  let q2 := SELECT (limit 1 (filter_by "Young ice" Term_query)) in
  let q3 := SELECT_count Term_query in
  let q4 := SELECT (limit 10 Term_query) in
  let q5 := SELECT (filter (term_string_ilike "%ice%") Term_query) in
  let white_ice :=
    head (select_rows (limit 1 (filter_by "White ice" Term_query)) rows) in
  let young_ice :=
    head (select_rows (limit 1 (filter_by "Young ice" Term_query)) rows) in
  let terms := select_rows (limit 10 Term_query) rows in
  let ice_terms :=
    select_rows (filter (term_string_ilike "%ice%") Term_query) rows in
  let l1 := "White ice exists: " +:+ str_bool (is_not_None white_ice) in
  let l2 := "Young ice exists: " +:+ str_bool (is_not_None young_ice) in
  let l3 := "Total terms in database: "
            +:+ pretty (length (select_rows Term_query rows)) in
  let h1 := newline +:+ "First 10 terms:" in
  let h2 :=
    newline +:+ "Terms containing 'ice': " +:+ pretty (length ice_terms) in
  check_database status_str σ =
    match faults σ k with
    | Some e => (Raise e, after σ [q1] [])
    | None =>
    match faults σ (k + 1) with
    | Some e => (Raise e, after σ [q1; q2] [])
    | None =>
    match faults σ (k + 2) with
    | Some e => (Raise e, after σ [q1; q2; q3] [l1; l2])
    | None =>
    match faults σ (k + 3) with
    | Some e => (Raise e, after σ [q1; q2; q3; q4] [l1; l2; l3; h1])
    | None =>
    match faults σ (k + 4) with
    | Some e =>
        (Raise e,
         after σ [q1; q2; q3; q4; q5]
           ([l1; l2; l3; h1] ++ map (term_line status_str) terms))
    | None =>
        (Return (),
         after σ [q1; q2; q3; q4; q5]
           ([l1; l2; l3; h1] ++ map (term_line status_str) terms
            ++ [h2] ++ map ice_line ice_terms))
    end end end end end.
Proof.
  intros Hs **. unfold check_database, with_app_context.
  unfold mbind, M_bind, bind, ret. unfold create_app. rewrite (proj1 Hs).
  rewrite first_run. fold k. destruct (faults σ k); [done|].
  rewrite first_run, length_issued_after, faults_after, table_after.
  fold k. cbn [length].
  destruct (faults σ (k + 1)); [by rewrite after_after|].
  rewrite !print_after, !after_after, count_run by done.
  rewrite length_issued_after, faults_after, table_after.
  fold k. cbn [length app].
  destruct (faults σ (k + 2)); [by rewrite after_after|].
  rewrite !print_after, !after_after, all_run by done.
  rewrite length_issued_after, faults_after, table_after.
  fold k. cbn [length app].
  destruct (faults σ (k + 3)); [by rewrite after_after|].
  rewrite for_each_print, !after_after, all_run by done.
  rewrite length_issued_after, faults_after, table_after.
  fold k. cbn [length app]. destruct (faults σ (k + 4)).
  { rewrite after_after. by rewrite app_nil_r. }
  rewrite print_after, for_each_print, !after_after by done.
  done.
Qed.


(** What each query of the script selects. *)

Lemma select_rows_all (rows : list Term) : select_rows Term_query rows = rows.
Proof.
  unfold select_rows. cbn. induction rows as [|t rows IH]; [done|].
  cbn. by rewrite IH.
Qed.

Lemma select_rows_limit (n : nat) (rows : list Term) :
  select_rows (limit n Term_query) rows = take n rows.
Proof.
  pose proof (select_rows_all rows) as H. unfold select_rows in *. cbn in *.
  by rewrite H.
Qed.

Lemma selected_single (c : Criterion) (t : Term) :
  selected [c] t = holds c t.
Proof. unfold selected. cbn. by rewrite andb_true_r. Qed.

Lemma select_rows_filter (c : Criterion) (rows : list Term) :
  select_rows (filter c Term_query) rows = List.filter (holds c) rows.
Proof.
  unfold select_rows. cbn. apply filter_ext. intros t. apply selected_single.
Qed.

Lemma select_rows_first (v : string) (rows : list Term) :
  head (select_rows (limit 1 (filter_by v Term_query)) rows)
  = head (List.filter (holds (term_string_eq v)) rows).
Proof.
  unfold select_rows. cbn.
  rewrite (filter_ext _ _ (selected_single (term_string_eq v))).
  by destruct (List.filter _ rows).
Qed.

Lemma elem_of_filter_list (p : Term → bool) (t : Term) (rows : list Term) :
  t ∈ List.filter p rows ↔ t ∈ rows ∧ p t = true.
Proof. rewrite !list_elem_of_In. apply filter_In. Qed.

Lemma head_filter_found (p : Term → bool) (t : Term) (rows : list Term) :
  t ∈ rows → p t = true → is_not_None (head (List.filter p rows)) = true.
Proof.
  intros Hin Hp.
  assert (t ∈ List.filter p rows) as H by by apply elem_of_filter_list.
  by destruct (List.filter p rows); [apply elem_of_nil in H|].
Qed.

Lemma head_filter_holds (p : Term → bool) (t : Term) (rows : list Term) :
  head (List.filter p rows) = Some t → t ∈ rows ∧ p t = true.
Proof.
  intros H. apply elem_of_filter_list.
  destruct (List.filter p rows) as [|t' l]; [done|].
  injection H as ->. apply list_elem_of_here.
Qed.

Lemma holds_ilike_ice (t : Term) (s : string) :
  term_string t = Some s → contains_ignoring_case "ice" (up_to_nul s) →
  holds (term_string_ilike "%ice%") t = true.
Proof. intros Hs Hc. unfold holds. rewrite Hs. by apply ilike_ice. Qed.

Lemma exec_read (stmt : Statement) (rows : list Term) :
  is_read stmt = true → (exec stmt rows).2 = rows.
Proof. by destruct stmt. Qed.

End ScriptFacts.

(** ** Every step of the script is a read or a print *)

Section ReadOnly.
Context {Status Exn : Type} (status_str : Status → string).
Local Abbreviation State := (@State Status Exn).
Local Abbreviation Term := (@Term Status).
Local Abbreviation M := (@M Status Exn).

Lemma read_only_ret {A} (a : A) : read_only 0 0 (ret a : M A).
Proof.
  intros σ. exists [], []. cbn. rewrite after_nil.
  repeat split; [done..|]. intros j e Hj. cbn in Hj. lia.
Qed.

Lemma read_only_create_app : read_only 0 0 (create_app : M App).
Proof.
  intros σ. exists [], []. unfold create_app. rewrite after_nil.
  destruct (config_error σ); (repeat split; [done..|]);
    intros j e' Hj; cbn in Hj; lia.
Qed.

Lemma read_only_print (s : string) : read_only 0 0 (print s : M unit).
Proof.
  intros σ. rewrite print_run. destruct (print_faults σ _).
  - exists [], []. rewrite after_nil. repeat split; [done..|].
    intros j e' Hj. cbn in Hj. lia.
  - exists [], [s]. repeat split; [done..|].
    intros j e' Hj. cbn in Hj. lia.
Qed.

Lemma read_only_execute (stmt : Statement) :
  is_read stmt = true → read_only 1 1 (execute stmt : M Result).
Proof.
  intros Hr σ. rewrite execute_read by done. exists [stmt], [].
  destruct (faults σ (length (issued σ))) as [e|] eqn:Hf.
  - repeat split; [by cbn; rewrite Hr|done..|].
    intros j e' Hj. cbn in Hj. replace j with 0 by lia.
    rewrite Nat.add_0_r, Hf. by intros [= ->].
  - repeat split; [by cbn; rewrite Hr|done..|].
    intros j e' Hj. cbn in Hj. replace j with 0 by lia.
    by rewrite Nat.add_0_r, Hf.
Qed.

Lemma read_only_bind {A B} (lo1 hi1 lo2 hi2 : nat) (m : M A) (k : A → M B) :
  read_only lo1 hi1 m → (∀ a, read_only lo2 hi2 (k a)) →
  read_only lo1 (hi1 + hi2) (bind m k).
Proof.
  intros Hm Hk σ. unfold bind.
  destruct (Hm σ) as (s1 & l1 & Hσ1 & Hr1 & Hlo1 & Hhi1 & Hf1).
  destruct (m σ) as [[a|e] σ1]; cbn [fst snd] in *.
  - destruct (Hk a σ1) as (s2 & l2 & Hσ2 & Hr2 & Hlo2 & Hhi2 & Hf2).
    exists (s1 ++ s2), (l1 ++ l2). subst σ1.
    rewrite Hσ2, after_after. repeat split.
    + by rewrite forallb_app, Hr1, Hr2.
    + rewrite length_app. lia.
    + rewrite length_app. lia.
    + intros j e Hj Hfj. rewrite length_app in Hj.
      destruct (decide (j < length s1)) as [Hlt|Hge].
      { by specialize (Hf1 j e Hlt Hfj). }
      apply (Hf2 (j - length s1) e); [lia|].
      rewrite length_issued_after, faults_after.
      by replace (length (issued σ) + length s1 + (j - length s1))
        with (length (issued σ) + j) by lia.
  - exists s1, l1. split; [done|]. split; [done|]. split; [done|].
    split; [lia|]. intros j e0 Hj Hfj.
    by injection (Hf1 j e0 Hj Hfj) as ->.
Qed.

Lemma read_only_for_each {A} (xs : list A) (body : A → M unit) :
  (∀ x, read_only 0 0 (body x)) → read_only 0 0 (for_each xs body).
Proof.
  intros Hb. induction xs as [|x xs IH]; cbn [for_each].
  - apply read_only_ret.
  - unfold mbind, M_bind. apply (read_only_bind 0 0 0 0); [apply Hb|done].
Qed.

Lemma read_only_first (q : Query) : read_only 1 1 (first q : M (option Term)).
Proof.
  unfold first, all, count, mbind, M_bind.
  apply (read_only_bind 1 1 0 0); [by apply read_only_execute|].
  intros r. apply read_only_ret.
Qed.

Lemma read_only_all (q : Query) : read_only 1 1 (all q : M (list Term)).
Proof.
  unfold first, all, count, mbind, M_bind.
  apply (read_only_bind 1 1 0 0); [by apply read_only_execute|].
  intros r. apply read_only_ret.
Qed.

Lemma read_only_count (q : Query) : read_only 1 1 (count q : M nat).
Proof.
  unfold first, all, count, mbind, M_bind.
  apply (read_only_bind 1 1 0 0); [by apply read_only_execute|].
  intros r. apply read_only_ret.
Qed.


Lemma read_only_with_app_context {A} (lo hi : nat) (app : App) (m : M A) :
  read_only lo hi m → read_only lo hi (with_app_context app m).
Proof. done. Qed.

(** The script is [create_app] followed by a block that sends between one
    and five statements. *)
Lemma check_database_block :
  ∃ block : App → M unit,
    check_database status_str = bind create_app block
    ∧ ∀ app, read_only 1 5 (block app).
Proof.
  eexists. split; [reflexivity|]. intros app.
  apply read_only_with_app_context. unfold mbind, M_bind.
  apply (read_only_bind 1 1 1 4); [apply read_only_first|]. intros white_ice.
  apply (read_only_bind 1 1 0 3); [apply read_only_first|]. intros young_ice.
  apply (read_only_bind 0 0 0 3); [apply read_only_print|]. intros _.
  apply (read_only_bind 0 0 1 3); [apply read_only_print|]. intros _.
  apply (read_only_bind 1 1 0 2); [apply read_only_count|]. intros total.
  apply (read_only_bind 0 0 0 2); [apply read_only_print|]. intros _.
  apply (read_only_bind 0 0 1 2); [apply read_only_print|]. intros _.
  apply (read_only_bind 1 1 0 1); [apply read_only_all|]. intros terms.
  apply (read_only_bind 0 0 1 1);
    [apply read_only_for_each; intros; apply read_only_print|]. intros _.
  apply (read_only_bind 1 1 0 0); [apply read_only_all|]. intros ice_terms.
  apply (read_only_bind 0 0 0 0); [apply read_only_print|]. intros _.
  apply read_only_for_each. intros. apply read_only_print.
Qed.

(** The run from any state: nothing is sent when the configuration does not
    load; otherwise between one and five reads are sent, and a failed one
    decides the outcome. *)
Lemma check_database_shape (σ : State) :
  match config_error σ with
  | Some e => check_database status_str σ = (Raise e, σ)
  | None =>
      ∃ stmts lines,
        (check_database status_str σ).2 = after σ stmts lines
        ∧ forallb is_read stmts = true
        ∧ (1 ≤ length stmts)%nat ∧ (length stmts ≤ 5)%nat
        ∧ ∀ j e,
            j < length stmts →
            faults σ (length (issued σ) + j) = Some e →
            (check_database status_str σ).1 = Raise e
  end.
Proof.
  destruct check_database_block as (block & -> & Hblock).
  unfold bind, create_app. destruct (config_error σ); [done|].
  apply Hblock.
Qed.

End ReadOnly.

(** ** check_db.py: what the script prints, sends and returns *)

Section CheckDbClaims.
Context {Status Exn : Type} (status_str : Status → string).
Local Abbreviation State := (@State Status Exn).
Local Abbreviation Term := (@Term Status).

Lemma head_filter_existsb (p : Term → bool) (rows : list Term) :
  is_not_None (head (List.filter p rows)) = existsb p rows.
Proof.
  induction rows as [|t rows IH]; [done|].
  cbn. by destruct (p t).
Qed.

(** C1, as amended.  On a connection that carries the statement, the rows
    returned by [Term.query.filter(Term.term_string.ilike('%ice%')).all()]
    include every row of the table whose [term_string], read up to its first
    NUL character, contains "ice" when case is ignored; so every row whose
    [term_string] holds no NUL and contains "ice". *)
Theorem ice_filter_superset (σ : State) (t : Term) (s : string) :
  faults σ (length (issued σ)) = None →
  t ∈ table σ →
  term_string t = Some s →
  contains_ignoring_case "ice" (up_to_nul s) →
  ∃ ice_terms σ',
    all (filter (term_string_ilike "%ice%") Term_query) σ
      = (Return ice_terms, σ')
    ∧ t ∈ ice_terms.
Proof.
  intros Hf Hin Hs Hc. rewrite all_run, Hf. eexists _, _. split; [done|].
  rewrite select_rows_filter. apply elem_of_filter_list.
  split; [done|]. by apply (holds_ilike_ice t s).
Qed.

(** C2.  The third line the script prints is "Total terms in database: N"
    with N the number of rows of the table; it is printed as soon as the
    first three statements go through, whatever happens to the later ones. *)
Theorem total_terms_is_row_count (rows : list Term) (f : nat → option Exn) :
  (∀ k, k < 3 → f k = None) →
  stdout (check_database status_str (start rows f)).2 !! 2
  = Some ("Total terms in database: " +:+ pretty (length rows)).
Proof.
  intros Hf. rewrite check_database_run by done. cbn [start faults issued length table].
  rewrite !Hf by lia. rewrite select_rows_all.
  by destruct (f (0 + 3)), (f (0 + 4)).
Qed.

(** C3.  When the table holds a row whose [term_string] is exactly
    'White ice', the first line printed is "White ice exists: True". *)
Theorem white_ice_exists_true (rows : list Term) (f : nat → option Exn)
    (t : Term) :
  (∀ k, k < 2 → f k = None) →
  t ∈ rows →
  term_string t = Some "White ice" →
  stdout (check_database status_str (start rows f)).2 !! 0
  = Some "White ice exists: True".
Proof.
  intros Hf Hin Hs. rewrite check_database_run by done.
  cbn [start faults issued length table].
  rewrite !Hf by lia. rewrite select_rows_first.
  rewrite (head_filter_found _ t) by (by unfold holds; rewrite ?Hs).
  by destruct (f (0 + 2)), (f (0 + 3)), (f (0 + 4)).
Qed.

(** C4.  Against an empty table the script prints the two existence
    lines, "Total terms in database: 0" and the two section headers, and no
    term line under either header. *)
Theorem empty_table_report (f : nat → option Exn) :
  (∀ k, k < 5 → f k = None) →
  let σ := (check_database status_str (start [] f)).2 in
  stdout σ
  = [ "White ice exists: False";
      "Young ice exists: False";
      "Total terms in database: 0";
      newline +:+ "First 10 terms:";
      newline +:+ "Terms containing 'ice': 0" ]
  ∧ stdout_text σ
    = "White ice exists: False" +:+ newline
      +:+ "Young ice exists: False" +:+ newline
      +:+ "Total terms in database: 0" +:+ newline
      +:+ newline +:+ "First 10 terms:" +:+ newline
      +:+ newline +:+ "Terms containing 'ice': 0" +:+ newline.
Proof.
  intros Hf σ. subst σ. rewrite check_database_run by done.
  cbn [start faults issued length table].
  rewrite !Hf by lia. done.
Qed.

(** C6.  On a healthy connection the script sends five statements, all
    reads: two exact-match lookups on [term_string] with LIMIT 1, a count of
    all rows, the first 10 rows, and the case-insensitive lookup of '%ice%'.
    It prints the two existence lines, the row count, and under "First 10
    terms:" one line for each of the first 10 rows of the table, never more
    than 10 however many rows there are. *)
Theorem check_database_report (rows : list Term) (f : nat → option Exn) :
  (∀ k, k < 5 → f k = None) →
  let white_ice := existsb (holds (term_string_eq "White ice")) rows in
  let young_ice := existsb (holds (term_string_eq "Young ice")) rows in
  let ice_terms := List.filter (holds (term_string_ilike "%ice%")) rows in
  check_database status_str (start rows f)
  = (Return (),
     {| table := rows;
        faults := f;
        print_faults := λ _, None;
        config_error := None;
        issued :=
          [ SELECT {| whereclause := [term_string_eq "White ice"];
                      limit_clause := Some 1 |};
            SELECT {| whereclause := [term_string_eq "Young ice"];
                      limit_clause := Some 1 |};
            SELECT_count {| whereclause := []; limit_clause := None |};
            SELECT {| whereclause := []; limit_clause := Some 10 |};
            SELECT {| whereclause := [term_string_ilike "%ice%"];
                      limit_clause := None |} ];
        stdout :=
          [ "White ice exists: " +:+ str_bool white_ice;
            "Young ice exists: " +:+ str_bool young_ice;
            "Total terms in database: " +:+ pretty (length rows);
            newline +:+ "First 10 terms:" ]
          ++ map (term_line status_str) (take 10 rows)
          ++ [ newline +:+ "Terms containing 'ice': "
               +:+ pretty (length ice_terms) ]
          ++ map ice_line ice_terms |})
  ∧ length (take 10 rows) = 10 `min` length rows.
Proof.
  intros Hf white_ice young_ice ice_terms. split; [|apply length_take].
  rewrite check_database_run by done. cbn [start faults issued length table].
  rewrite !Hf by lia.
  rewrite !select_rows_first, !head_filter_existsb, select_rows_all,
    select_rows_limit, select_rows_filter.
  done.
Qed.

(** C7.  From every state and on every connection, the script leaves the
    table as it found it, and every statement it sends is a read. *)
Theorem check_database_read_only (σ : State) :
  let σ' := (check_database status_str σ).2 in
  table σ' = table σ
  ∧ ∃ stmts, issued σ' = issued σ ++ stmts ∧ forallb is_read stmts = true.
Proof.
  intros σ'. subst σ'. pose proof (check_database_shape status_str σ) as H.
  destruct (config_error σ) as [e|].
  - rewrite H. split; [done|]. exists []. by rewrite app_nil_r.
  - destruct H as (stmts & lines & -> & Hr & _). split; [done|].
    by exists stmts.
Qed.


(** C9.  When the lookup of 'White ice' finds a row, that row is among the
    rows the '%ice%' lookup returns, so there is at least one of them; the
    script prints "White ice exists: True" and, in the header of the last
    section, their number. *)
Theorem white_ice_in_ice_terms (rows : list Term) (f : nat → option Exn)
    (t : Term) (σ1 : State) :
  (∀ k, k < 5 → f k = None) →
  first (filter_by "White ice" Term_query) (start rows f)
  = (Return (Some t), σ1) →
  let ice_terms :=
    select_rows (filter (term_string_ilike "%ice%") Term_query) rows in
  t ∈ ice_terms
  ∧ (1 ≤ length ice_terms)%nat
  ∧ ∃ listing,
      stdout (check_database status_str (start rows f)).2
      = "White ice exists: True"
        :: listing
        ++ (newline +:+ "Terms containing 'ice': "
            +:+ pretty (length ice_terms))
        :: map ice_line ice_terms.
Proof.
  intros Hf Hfirst ice_terms.
  rewrite first_run in Hfirst. cbn [start faults issued length table] in Hfirst.
  rewrite Hf in Hfirst by lia. injection Hfirst as Hhead _.
  assert (t ∈ ice_terms) as Hin.
  { rewrite select_rows_first in Hhead.
    apply head_filter_holds in Hhead as [Hin Hholds].
    subst ice_terms. rewrite select_rows_filter. apply elem_of_filter_list.
    split; [done|]. unfold holds in Hholds.
    destruct (term_string t) as [s|] eqn:Hs; [|done].
    apply bool_decide_eq_true in Hholds as ->.
    apply (holds_ilike_ice t "White ice"); [done|].
    by exists "white ", EmptyString. }
  split; [done|]. split.
  { destruct ice_terms; [by apply elem_of_nil in Hin|cbn; lia]. }
  rewrite check_database_run by done. cbn [start faults issued length table].
  rewrite !Hf by lia. rewrite Hhead. fold ice_terms.
  by eexists (_ :: _ :: _ :: _).
Qed.

(** C10.  The number in the header "Terms containing 'ice': k" is the number
    of lines printed after it, one [print] for each row the lookup
    fetched. *)
Theorem ice_count_matches_lines (rows : list Term) (f : nat → option Exn) :
  (∀ k, k < 5 → f k = None) →
  ∃ (before lines : list string) (k : nat),
    stdout (check_database status_str (start rows f)).2
    = before ++ (newline +:+ "Terms containing 'ice': " +:+ pretty k) :: lines
    ∧ length before = 4 + 10 `min` length rows
    ∧ length lines = k
    ∧ lines = map ice_line
                (List.filter (holds (term_string_ilike "%ice%")) rows).
Proof.
  intros Hf. rewrite check_database_run by done.
  cbn [start faults issued length table]. rewrite !Hf by lia.
  rewrite select_rows_limit, select_rows_filter.
  eexists (_ :: _ :: _ :: _ :: map _ _), _, _. cbn.
  split; [done|]. rewrite length_map, length_take.
  split; [done|]. split; [|done]. by rewrite length_map.
Qed.

End CheckDbClaims.

(** ** app.py: the configuration of the application *)

Section BootstrapFacts.
Import FlaskApp.
Context {Value : Type} (isupper : string → bool)
  (default_config : gmap string Value).

(** One round of the loop of [from_object]. *)
Lemma from_object_step (obj : gmap string Value) (keys : list string)
    (cfg : gmap string Value) (key : string) :
  foldl (λ cfg key,
           if isupper key then
             match getattr obj key with
             | Some v => <[key:=v]> cfg
             | None => cfg
             end
           else cfg) cfg keys !! key
  = if bool_decide (key ∈ keys) && isupper key
    then match obj !! key with Some v => Some v | None => cfg !! key end
    else cfg !! key.
Proof.
  revert cfg. induction keys as [|k keys IH]; intros cfg; [done|].
  cbn [foldl]. rewrite IH. unfold getattr.
  destruct (decide (key = k)) as [->|Hne].
  - rewrite (bool_decide_eq_true_2 (k ∈ k :: keys)) by apply list_elem_of_here.
    cbn [andb]. destruct (isupper k) eqn:Hup.
    + rewrite andb_true_r.
      destruct (obj !! k) as [v|] eqn:Hk; [|by destruct (bool_decide _)].
      rewrite lookup_insert_eq. by destruct (bool_decide _).
    + by rewrite andb_false_r.
  - assert (bool_decide (key ∈ k :: keys) = bool_decide (key ∈ keys)) as ->.
    { apply bool_decide_ext. rewrite elem_of_cons.
      split; [by intros [?|?]|by right]. }
    assert ((if isupper k
             then match obj !! k with Some v => <[k:=v]> cfg | None => cfg end
             else cfg) !! key = cfg !! key) as ->; [|done].
    destruct (isupper k), (obj !! k); try done.
    by rewrite lookup_insert_ne.
Qed.

Lemma elem_of_dir (obj : gmap string Value) (key : string) :
  key ∈ dir obj ↔ is_Some (obj !! key).
Proof.
  unfold dir. rewrite list_elem_of_fmap. split.
  - intros ([k v] & -> & H%elem_of_map_to_list). by exists v.
  - intros [v H]. exists (key, v). split; [done|].
    by apply elem_of_map_to_list.
Qed.

Lemma from_object_lookup (obj cfg : gmap string Value) (key : string) :
  from_object isupper obj cfg !! key
  = if isupper key
    then match obj !! key with Some v => Some v | None => cfg !! key end
    else cfg !! key.
Proof.
  unfold from_object. rewrite from_object_step.
  destruct (isupper key); [|by rewrite andb_false_r].
  rewrite andb_true_r. case_bool_decide as Hin; [done|].
  destruct (obj !! key) eqn:Hk; [|done].
  destruct Hin. apply elem_of_dir. by rewrite Hk.
Qed.

(** C5.  The bootstrap builds, from whatever [Config] is, an application
    named [__name__] whose [config] is Flask's defaults with the settings of
    [Config] laid over them: every attribute of [Config] with an upper-case
    name (the names [from_object] reads) is in it with the value [Config]
    gives, and every other key is as Flask set it up; so no setting that
    Flask provides for serving is missing from the instance. *)
Theorem app_config_from_object (__name__ : string)
    (Config : gmap string Value) :
  import_name (app isupper default_config __name__ Config) = __name__
  ∧ config (app isupper default_config __name__ Config)
    = base.filter (λ kv, isupper kv.1 = true) Config ∪ default_config
  ∧ ∀ key,
      is_Some (default_config !! key) →
      is_Some (config (app isupper default_config __name__ Config) !! key).
Proof.
  split; [done|].
  assert (∀ key,
            config (app isupper default_config __name__ Config) !! key
            = if isupper key
              then match Config !! key with
                   | Some v => Some v
                   | None => default_config !! key
                   end
              else default_config !! key) as Hlookup.
  { intros key. unfold app. cbn. apply from_object_lookup. }
  split; [|intros key Hd; rewrite Hlookup;
           by destruct (isupper key), (Config !! key)].
  apply map_eq. intros key.
  unfold app. cbn. rewrite from_object_lookup, lookup_union.
  destruct (isupper key) eqn:Hup.
  - destruct (Config !! key) as [v|] eqn:Hk.
    + erewrite (proj2 (map_lookup_filter_Some _ _ key v)); [|done].
      by destruct (default_config !! key).
    + rewrite (proj2 (map_lookup_filter_None _ _ key)) by (left; done).
      by destruct (default_config !! key).
  - rewrite (proj2 (map_lookup_filter_None _ _ key)).
    + by destruct (default_config !! key).
    + right. intros v _. cbn. by rewrite Hup.
Qed.

(** X13.  An attribute of [Config] whose name is not upper-case is not
    copied, and a key that [Config] does not define keeps Flask's default. *)
Lemma app_config_default (__name__ : string)
    (Config : gmap string Value) (key : string) :
  isupper key = false ∨ Config !! key = None →
  config (app isupper default_config __name__ Config) !! key
  = default_config !! key.
Proof.
  intros H. unfold app. cbn. rewrite from_object_lookup.
  destruct (isupper key); [|done]. by destruct H as [?| ->].
Qed.

End BootstrapFacts.

(** ** check_db.py: more on what a run prints and sends *)

Section CheckDbMore.
Context {Status Exn : Type} (status_str : Status → string).
Local Abbreviation State := (@State Status Exn).
Local Abbreviation Term := (@Term Status).

(** The run on a connection that carries all five statements. *)
Lemma run_healthy (rows : list Term) (f : nat → option Exn) :
  (∀ k, k < 5 → f k = None) →
  check_database status_str (start rows f)
  = (Return (),
     after (start rows f)
       [ SELECT (limit 1 (filter_by "White ice" Term_query));
         SELECT (limit 1 (filter_by "Young ice" Term_query));
         SELECT_count Term_query;
         SELECT (limit 10 Term_query);
         SELECT (filter (term_string_ilike "%ice%") Term_query) ]
       ([ "White ice exists: "
          +:+ str_bool (existsb (holds (term_string_eq "White ice")) rows);
          "Young ice exists: "
          +:+ str_bool (existsb (holds (term_string_eq "Young ice")) rows);
          "Total terms in database: " +:+ pretty (length rows);
          newline +:+ "First 10 terms:" ]
        ++ map (term_line status_str) (take 10 rows)
        ++ (newline +:+ "Terms containing 'ice': "
            +:+ pretty
                  (length
                     (List.filter (holds (term_string_ilike "%ice%")) rows)))
           :: map ice_line
                (List.filter (holds (term_string_ilike "%ice%")) rows))).
Proof.
  intros Hf. rewrite check_database_run by done.
  cbn [start faults issued length table]. rewrite !Hf by lia.
  by rewrite !select_rows_first, !head_filter_existsb, select_rows_all,
    select_rows_limit, select_rows_filter.
Qed.

Lemma filter_sublist (p : Term → bool) (rows : list Term) :
  List.filter p rows `sublist_of` rows.
Proof.
  induction rows as [|t rows IH]; [done|]. cbn.
  destruct (p t); [by apply sublist_skip|by apply sublist_cons].
Qed.

Lemma existsb_holds_eq (v : string) (rows : list Term) :
  existsb (holds (term_string_eq v)) rows = true
  ↔ ∃ t, t ∈ rows ∧ term_string t = Some v.
Proof.
  rewrite existsb_exists. split.
  - intros (t & Hin%list_elem_of_In & Hh). exists t. split; [done|].
    unfold holds in Hh. destruct (term_string t); [|done].
    by apply bool_decide_eq_true in Hh as ->.
  - intros (t & Hin%list_elem_of_In & Hs). exists t. split; [done|].
    unfold holds. rewrite Hs. by apply bool_decide_eq_true.
Qed.

Lemma holds_ilike_ice_inv (t : Term) :
  holds (term_string_ilike "%ice%") t = true →
  ∃ s, term_string t = Some s ∧ contains_ignoring_case "ice" s.
Proof.
  unfold holds. destruct (term_string t) as [s|]; [|done].
  intros H. exists s. split; [done|]. by apply ilike_ice_contains.
Qed.

(** X1.  The rows the '%ice%' lookup returns are rows of the table, in
    table order and none twice over, and each has a [term_string] (not NULL)
    that contains "ice" when case is ignored. *)
Theorem ice_filter_exact (σ : State) :
  faults σ (length (issued σ)) = None →
  ∃ ice_terms σ',
    all (filter (term_string_ilike "%ice%") Term_query) σ
      = (Return ice_terms, σ')
    ∧ ice_terms `sublist_of` table σ
    ∧ ∀ t, t ∈ ice_terms →
        ∃ s, term_string t = Some s ∧ contains_ignoring_case "ice" s.
Proof.
  intros Hf. rewrite all_run, Hf. eexists _, _. split; [done|].
  rewrite select_rows_filter. split; [apply filter_sublist|].
  intros t [_ Hh]%elem_of_filter_list. by apply holds_ilike_ice_inv.
Qed.

(** X2.  When no row has the [term_string] 'White ice' exactly, the first
    line printed is "White ice exists: False"; a row that differs from it in
    case only does not count. *)
Theorem white_ice_exists_false (rows : list Term) (f : nat → option Exn) :
  (∀ k, k < 2 → f k = None) →
  (∀ t, t ∈ rows → term_string t ≠ Some "White ice") →
  stdout (check_database status_str (start rows f)).2 !! 0
  = Some "White ice exists: False".
Proof.
  intros Hf Hno. rewrite check_database_run by done.
  cbn [start faults issued length table]. rewrite !Hf by lia.
  rewrite select_rows_first, head_filter_existsb.
  destruct (existsb _ rows) eqn:Hex.
  { apply existsb_holds_eq in Hex as (t & Hin & Hs). by destruct (Hno t Hin). }
  by destruct (f (0 + 2)), (f (0 + 3)), (f (0 + 4)).
Qed.

(** X3.  The second line printed is "Young ice exists: True" or
    "Young ice exists: False", and it is the former exactly when some row has
    the [term_string] 'Young ice'. *)
Theorem young_ice_line (rows : list Term) (f : nat → option Exn) :
  (∀ k, k < 2 → f k = None) →
  let line := stdout (check_database status_str (start rows f)).2 !! 1 in
  (line = Some "Young ice exists: True"
   ∨ line = Some "Young ice exists: False")
  ∧ (line = Some "Young ice exists: True"
     ↔ ∃ t, t ∈ rows ∧ term_string t = Some "Young ice").
Proof.
  intros Hf line. subst line. rewrite check_database_run by done.
  cbn [start faults issued length table]. rewrite !Hf by lia.
  rewrite (select_rows_first "Young ice"), head_filter_existsb.
  rewrite <-existsb_holds_eq.
  destruct (existsb (holds (term_string_eq "Young ice")) rows);
    destruct (f (0 + 2)), (f (0 + 3)), (f (0 + 4)); cbn;
    (split; [by (left + right)|]); done.
Qed.

(** X4.  Both existence lookups are made before anything is printed: when
    either of them fails, the exception leaves the script and standard
    output is empty. *)
Theorem lookup_failure_prints_nothing (rows : list Term)
    (f : nat → option Exn) (e : Exn) :
  f 0 = Some e ∨ (f 0 = None ∧ f 1 = Some e) →
  (check_database status_str (start rows f)).1 = Raise e
  ∧ stdout (check_database status_str (start rows f)).2 = [].
Proof.
  intros Hf. rewrite check_database_run by done.
  cbn [start faults issued length table]. change (0 + 1) with 1.
  destruct Hf as [H0|[H0 H1]]; rewrite H0; [done|]. by rewrite H1.
Qed.

(** X7.  The header "First 10 terms:" is printed before the rows are
    fetched: when that query fails, the header is the fourth and last thing
    printed. *)
Theorem listing_failure_leaves_header (rows : list Term)
    (f : nat → option Exn) (e : Exn) :
  (∀ k, k < 3 → f k = None) →
  f 3 = Some e →
  (check_database status_str (start rows f)).1 = Raise e
  ∧ length (stdout (check_database status_str (start rows f)).2) = 4
  ∧ last (stdout (check_database status_str (start rows f)).2)
    = Some (newline +:+ "First 10 terms:").
Proof.
  intros Hf H3. rewrite check_database_run by done.
  cbn [start faults issued length table]. rewrite !Hf by lia.
  change (0 + 3) with 3. by rewrite H3.
Qed.


Lemma app_self_nil {A} (l k : list A) : l = l ++ k → k = [].
Proof.
  intros H. apply (app_inv_head l). by rewrite app_nil_r.
Qed.

Lemma two_distinct_length {A} (x y : A) (l : list A) :
  x ∈ l → y ∈ l → x ≠ y → (2 ≤ length l)%nat.
Proof.
  destruct l as [|a [|b l]]; intros Hx Hy Hne.
  - by apply elem_of_nil in Hx.
  - apply list_elem_of_singleton in Hx, Hy. congruence.
  - cbn. lia.
Qed.

(** X5.  On any connection, what the script prints is a prefix of what it
    prints on a healthy connection against the same table, and it is the
    whole of it exactly when [check_database] returns. *)
Theorem failure_truncates_report (rows : list Term) (f : nat → option Exn) :
  let run := check_database status_str (start rows f) in
  let full := check_database status_str (start (Exn:=Exn) rows (λ _, None)) in
  stdout run.2 `prefix_of` stdout full.2
  ∧ (run.1 = Return () ↔ stdout run.2 = stdout full.2).
Proof.
  intros run full. subst run full. rewrite !check_database_run by done.
  cbn [start faults issued length table].
  destruct (f 0) as [e|];
    [|destruct (f (0 + 1)) as [e|];
      [|destruct (f (0 + 2)) as [e|];
        [|destruct (f (0 + 3)) as [e|];
          [|destruct (f (0 + 4)) as [e|]]]]];
    cbn [snd fst after stdout app start]; (split; [|split; [done|]]).
  - by eexists.
  - intros [=].
  - by eexists.
  - intros [=].
  - by eexists.
  - intros [=].
  - by eexists.
  - intros [= H]. by destruct (map _ _).
  - do 4 apply prefix_cons. by eexists.
  - intros [= H%app_self_nil]. done.
  - done.
  - done.
Qed.

(** X6.  Whatever the table holds and whatever fails, a run in which
    [create_app] returns sends at least one statement and at most five: the
    loops over the fetched rows send none.  A run in which loading the
    configuration fails sends nothing. *)
Theorem statements_sent_bound (σ : State) :
  let σ' := (check_database status_str σ).2 in
  match config_error σ with
  | None =>
      (length (issued σ) + 1 ≤ length (issued σ'))%nat
      ∧ (length (issued σ') ≤ length (issued σ) + 5)%nat
  | Some _ => issued σ' = issued σ
  end.
Proof.
  intros σ'. subst σ'. pose proof (check_database_shape status_str σ) as H.
  destruct (config_error σ) as [e|]; [by rewrite H|].
  destruct H as (stmts & lines & -> & _ & Hlo & Hhi & _).
  rewrite length_issued_after. lia.
Qed.

(** X8.  When statement [k] is the first to fail, its exception leaves the
    script, no statement is sent after it, and the table is as before. *)
Theorem stops_at_first_failure (rows : list Term) (f : nat → option Exn)
    (k : nat) (e : Exn) :
  k < 5 →
  (∀ j, j < k → f j = None) →
  f k = Some e →
  let run := check_database status_str (start rows f) in
  run.1 = Raise e
  ∧ length (issued run.2) = k + 1
  ∧ table run.2 = rows.
Proof.
  intros Hk Hf He run. subst run. rewrite check_database_run by done.
  cbn [start faults issued length table].
  change (0 + 1) with 1. change (0 + 2) with 2.
  change (0 + 3) with 3. change (0 + 4) with 4.
  destruct k as [|[|[|[|[|k]]]]]; [..|lia];
    rewrite ?Hf by lia; by rewrite He.
Qed.

(** X9.  A second run right after a first one, on a healthy connection,
    returns as well, leaves the table alone and prints the same report
    again. *)
Theorem second_run_repeats (rows : list Term) (f : nat → option Exn) :
  (∀ k, k < 10 → f k = None) →
  let σ1 := (check_database status_str (start rows f)).2 in
  let run2 := check_database status_str σ1 in
  run2.1 = Return ()
  ∧ table run2.2 = rows
  ∧ stdout run2.2 = stdout σ1 ++ stdout σ1.
Proof.
  intros Hf σ1 run2. subst run2 σ1.
  rewrite run_healthy by (intros; apply Hf; lia).
  cbn [snd]. rewrite check_database_run by done.
  cbn [snd fst after start faults issued length table stdout app Nat.add].
  rewrite !Hf by lia.
  rewrite !select_rows_first, !head_filter_existsb, select_rows_all,
    select_rows_limit, select_rows_filter.
  done.
Qed.

(** X10.  The number in the header of the last section is at most the
    number in "Total terms in database: N". *)
Theorem ice_count_at_most_total (rows : list Term) (f : nat → option Exn) :
  (∀ k, k < 5 → f k = None) →
  let out := stdout (check_database status_str (start rows f)).2 in
  ∃ k,
    out !! 2 = Some ("Total terms in database: " +:+ pretty (length rows))
    ∧ out !! (4 + 10 `min` length rows)
      = Some (newline +:+ "Terms containing 'ice': " +:+ pretty k)
    ∧ (k ≤ length rows)%nat.
Proof.
  intros Hf out. subst out. rewrite run_healthy by done.
  eexists. split; [done|]. split; [|apply filter_length_le].
  cbn [snd after start stdout app]. cbn [lookup list_lookup Nat.add].
  apply list_lookup_middle. by rewrite length_map, length_take.
Qed.

(** X11.  When both existence lines say True, the header of the last
    section counts at least two terms. *)
Theorem both_exist_two_ice_terms (rows : list Term) (f : nat → option Exn) :
  (∀ k, k < 5 → f k = None) →
  let out := stdout (check_database status_str (start rows f)).2 in
  out !! 0 = Some "White ice exists: True" →
  out !! 1 = Some "Young ice exists: True" →
  ∃ k,
    (2 ≤ k)%nat
    ∧ out !! (4 + 10 `min` length rows)
      = Some (newline +:+ "Terms containing 'ice': " +:+ pretty k).
Proof.
  intros Hf out. subst out. rewrite run_healthy by done.
  cbn [snd after start stdout app]. cbn [lookup list_lookup Nat.add].
  intros Hw Hy.
  destruct (existsb (holds (term_string_eq "White ice")) rows) eqn:Ew;
    [|done].
  destruct (existsb (holds (term_string_eq "Young ice")) rows) eqn:Ey;
    [|done].
  apply existsb_holds_eq in Ew as (t1 & Hin1 & Hs1).
  apply existsb_holds_eq in Ey as (t2 & Hin2 & Hs2).
  eexists. split; [|apply list_lookup_middle;
                     by rewrite length_map, length_take].
  apply (two_distinct_length t1 t2).
  - apply elem_of_filter_list. split; [done|].
    apply (holds_ilike_ice t1 "White ice"); [done|].
    by exists "white ", EmptyString.
  - apply elem_of_filter_list. split; [done|].
    apply (holds_ilike_ice t2 "Young ice"); [done|].
    by exists "young ", EmptyString.
  - intros ->. congruence.
Qed.

(** X12.  The listing follows the table: for [i < 10], the line of row [i]
    is print number [4 + i]. *)
Theorem listing_follows_table (rows : list Term) (f : nat → option Exn)
    (i : nat) (t : Term) :
  (∀ k, k < 5 → f k = None) →
  i < 10 →
  rows !! i = Some t →
  stdout (check_database status_str (start rows f)).2 !! (4 + i)
  = Some (term_line status_str t).
Proof.
  intros Hf Hi Ht. rewrite run_healthy by done.
  cbn [snd after start stdout app].
  match goal with
  | |- (_ :: _ :: _ :: _ :: ?l) !! _ = ?x => change (l !! i = x)
  end.
  rewrite lookup_app_l.
  - by rewrite list_lookup_fmap, lookup_take_lt, Ht.
  - rewrite length_map, length_take. apply lookup_lt_Some in Ht. lia.
Qed.

End CheckDbMore.

(** ** app.py: the folder added to [sys.path] *)

Section OsPathFacts.
Import OsPath.

(** [s] has no separator in it. *)
Local Abbreviation no_sep s := (any_char (λ c, Ascii.eqb c sep) s = false).

Lemma rfind_no_sep (s : string) : no_sep s → rfind sep s = (-1)%Z.
Proof.
  induction s as [|a s IH]; [done|]. cbn [any_char rfind].
  intros [Ha Hs]%orb_false_iff. rewrite (IH Hs). cbn. by rewrite Ha.
Qed.

Lemma rfind_last_sep (a b : string) :
  no_sep b → rfind sep (a +:+ String sep b) = Z.of_nat (String.length a).
Proof.
  intros Hb. induction a as [|x a IH].
  - change (EmptyString +:+ String sep b) with (String sep b).
    cbn [rfind]. by rewrite (rfind_no_sep b Hb).
  - rewrite append_cons. cbn [rfind String.length]. rewrite IH.
    destruct (Z.leb_spec 0 (Z.of_nat (String.length a))); lia.
Qed.

Lemma substring_prefix (n : nat) (s : string) :
  ∃ rest, s = substring 0 n s +:+ rest.
Proof.
  revert n. induction s as [|c s IH]; intros [|n]; cbn [substring].
  - by exists EmptyString.
  - by exists EmptyString.
  - by exists (String c s).
  - destruct (IH n) as [rest Hr]. exists rest.
    rewrite append_cons. by rewrite <-Hr.
Qed.

Lemma substring_app_length (a b : string) (c : ascii) :
  substring 0 (S (String.length a)) (a +:+ String c b)
  = a +:+ String c EmptyString.
Proof.
  induction a as [|x a IH].
  - change (EmptyString +:+ ?s) with s. cbn [String.length substring].
    by destruct b.
  - rewrite !append_cons. cbn [String.length substring]. by rewrite IH.
Qed.

Lemma rstrip_prefix (c : ascii) (s : string) :
  ∃ rest, s = rstrip c s +:+ rest.
Proof.
  induction s as [|a s [rest IH]]; [by exists EmptyString|].
  cbn [rstrip]. destruct (rstrip c s) as [|b r].
  - destruct (Ascii.eqb a c).
    + by exists (String a s).
    + exists s. by rewrite append_cons.
  - exists rest. rewrite append_cons. by rewrite <-IH.
Qed.

Lemma rstrip_snoc_sep (c : ascii) (s : string) :
  rstrip c (s +:+ String c EmptyString) = rstrip c s.
Proof.
  induction s as [|a s IH].
  - change (EmptyString +:+ ?s) with s. cbn. by rewrite Ascii.eqb_refl.
  - rewrite append_cons. cbn [rstrip]. by rewrite IH.
Qed.

Lemma rstrip_snoc_other (c x : ascii) (s : string) :
  x ≠ c → rstrip c (s +:+ String x EmptyString) = s +:+ String x EmptyString.
Proof.
  intros Hx. induction s as [|a s IH].
  - change (EmptyString +:+ ?s) with s. cbn.
    by apply Ascii.eqb_neq in Hx as ->.
  - rewrite append_cons. cbn [rstrip]. rewrite IH.
    by destruct s.
Qed.

Lemma repeat_char_all (c : ascii) (n : nat) :
  any_char (λ x, negb (Ascii.eqb x c)) (repeat_char c n) = false.
Proof.
  induction n as [|n IH]; [done|]. cbn. by rewrite Ascii.eqb_refl.
Qed.

Lemma any_char_app (p : ascii → bool) (s t : string) :
  any_char p (s +:+ t) = any_char p s || any_char p t.
Proof.
  induction s as [|a s IH]; [done|]. rewrite append_cons. cbn.
  by rewrite IH, orb_assoc.
Qed.

Lemma dirname_prefix (p : string) : ∃ rest, p = dirname p +:+ rest.
Proof.
  unfold dirname, slice_to.
  set (n := Z.to_nat _).
  destruct (substring_prefix n p) as [r1 H1].
  destruct (_ && _); [|by exists r1].
  destruct (rstrip_prefix sep (substring 0 n p)) as [r2 H2].
  exists (r2 +:+ r1). rewrite <-append_assoc. by rewrite <-H2.
Qed.


(** X16.  [dirname] only cuts: its result is a prefix of the path. *)
Theorem dirname_is_prefix (p : string) : ∃ rest, p = dirname p +:+ rest.
Proof. apply dirname_prefix. Qed.

(** X17.  When [__file__] has no separator in it (the script was started
    by its bare name), the entry added to [sys.path] is the empty string. *)
Theorem bare_filename_adds_empty_entry (__file__ : string)
    (sys_path : list string) :
  no_sep __file__ →
  dirname __file__ = EmptyString
  ∧ extend_sys_path __file__ sys_path = sys_path ++ [EmptyString].
Proof.
  intros Hp.
  assert (dirname __file__ = EmptyString) as Hd.
  { unfold dirname, slice_to. rewrite (rfind_no_sep _ Hp). cbn.
    by destruct __file__. }
  split; [done|]. unfold extend_sys_path. by rewrite Hd.
Qed.

Lemma dirname_join (d name : string) (x : ascii) :
  x ≠ sep → no_sep name →
  dirname ((d +:+ String x EmptyString) +:+ String sep name)
  = d +:+ String x EmptyString.
Proof.
  intros Hx Hname. set (folder := d +:+ String x EmptyString).
  unfold dirname, slice_to. rewrite (rfind_last_sep folder name Hname).
  destruct (Z.ltb_spec (Z.of_nat (String.length folder) + 1) 0); [lia|].
  replace (Z.to_nat (Z.of_nat (String.length folder) + 1))
    with (S (String.length folder)) by lia.
  rewrite substring_app_length.
  assert (folder +:+ String sep EmptyString ≠ EmptyString) as H1.
  { subst folder. by destruct d. }
  assert (∀ n, folder +:+ String sep EmptyString ≠ repeat_char sep n) as H2.
  { intros n Heq.
    pose proof (repeat_char_all sep n) as Hall. rewrite <-Heq in Hall.
    subst folder. rewrite !any_char_app in Hall. cbn in Hall.
    apply Ascii.eqb_neq in Hx. rewrite Hx in Hall. cbn in Hall.
    by rewrite orb_true_r in Hall. }
  apply String.eqb_neq in H1. rewrite H1.
  pose proof (H2 (String.length (folder +:+ String sep EmptyString))) as H3.
  apply String.eqb_neq in H3. rewrite H3. cbn [negb andb].
  rewrite rstrip_snoc_sep. subst folder. by apply rstrip_snoc_other.
Qed.

(** X18.  When [__file__] is [folder/name] with [name] free of separators
    and [folder] not ending in one, the entry added to [sys.path] is
    [folder], after all earlier entries. *)
Theorem script_folder_appended (d name : string) (x : ascii)
    (sys_path : list string) :
  x ≠ sep →
  no_sep name →
  extend_sys_path ((d +:+ String x EmptyString) +:+ String sep name) sys_path
  = sys_path ++ [d +:+ String x EmptyString].
Proof.
  intros Hx Hname. unfold extend_sys_path. by rewrite dirname_join.
Qed.

(** X19.  A file directly under the root has the root as its folder: the
    separator is not stripped when nothing else is left. *)
Theorem dirname_of_root_file (name : string) :
  no_sep name → dirname (String sep name) = String sep EmptyString.
Proof.
  intros Hname. unfold dirname, slice_to.
  pose proof (rfind_last_sep EmptyString name Hname) as H.
  change (EmptyString +:+ String sep name) with (String sep name) in H.
  rewrite H. cbn. by destruct name.
Qed.

End OsPathFacts.

(** ** app.py: more on the configuration *)

Section BootstrapMore.
Import FlaskApp.
Context {Value : Type} (isupper : string → bool)
  (default_config : gmap string Value).

(** X14.  The keys of the resulting [config] are Flask's default keys and
    the upper-case attribute names of [Config]: no default is dropped and
    nothing else is added. *)
Theorem app_config_keys (__name__ : string) (Config : gmap string Value)
    (key : string) :
  is_Some (config (app isupper default_config __name__ Config) !! key)
  ↔ is_Some (default_config !! key)
    ∨ (isupper key = true ∧ is_Some (Config !! key)).
Proof.
  unfold app. cbn. rewrite from_object_lookup.
  destruct (isupper key), (Config !! key) as [v|] eqn:Hk.
  - split; [intros _; right; split; [done|by exists v]|by exists v].
  - split; [by left|]. by intros [?|[_ [? ?]]].
  - split; [by left|]. by intros [?|[? _]].
  - split; [by left|]. by intros [?|[? _]].
Qed.

(** X15.  Loading the same object a second time changes nothing. *)
Theorem from_object_idempotent (obj cfg : gmap string Value) :
  from_object isupper obj (from_object isupper obj cfg)
  = from_object isupper obj cfg.
Proof.
  apply map_eq. intros key. rewrite !from_object_lookup.
  by destruct (isupper key), (obj !! key).
Qed.

End BootstrapMore.

(** ** The theorems at work on the sample data *)

Import Sample.

Lemma ice_filter_superset_witness :
  ∃ ice_terms σ',
    all (filter (term_string_ilike "%ice%") Term_query) (start rows healthy)
      = (Return ice_terms, σ')
    ∧ pack_ICE ∈ ice_terms.
Proof.
  apply (ice_filter_superset (start rows healthy) pack_ICE "Pack ICE").
  - reflexivity.
  - do 2 apply list_elem_of_further. apply list_elem_of_here.
  - reflexivity.
  - exists "pack ", EmptyString. reflexivity.
Defined.

Lemma total_terms_is_row_count_witness :
  stdout (check_database status_name (start rows (lost_at 3))).2 !! 2
  = Some "Total terms in database: 4".
Proof.
  apply (total_terms_is_row_count status_name rows (lost_at 3)).
  intros k Hk. destruct k as [|[|[|k]]]; [reflexivity..|lia].
Defined.

Lemma white_ice_exists_true_witness :
  stdout (check_database status_name (start rows healthy)).2 !! 0
  = Some "White ice exists: True".
Proof.
  apply (white_ice_exists_true status_name rows healthy white_ice).
  - intros k _. reflexivity.
  - apply list_elem_of_further, list_elem_of_here.
  - reflexivity.
Defined.

Lemma empty_table_report_witness :
  stdout (check_database status_name (start [] healthy)).2
  = [ "White ice exists: False";
      "Young ice exists: False";
      "Total terms in database: 0";
      newline +:+ "First 10 terms:";
      newline +:+ "Terms containing 'ice': 0" ]
  ∧ "Total terms in database: 0"
    ∈ stdout (check_database status_name (start [] healthy)).2.
Proof.
  destruct (empty_table_report status_name healthy) as [Hout _].
  - intros k _. reflexivity.
  - split; [exact Hout|]. rewrite Hout.
    do 2 apply list_elem_of_further. apply list_elem_of_here.
Defined.

Lemma app_config_from_object_witness :
  let cfg :=
    FlaskApp.config (FlaskApp.app isupper_ascii default_config "app" Config)
  in
  cfg !! "SQLALCHEMY_DATABASE_URI" = Some "sqlite:///yamz.db"
  ∧ cfg !! "DEBUG" = Some "False"
  ∧ cfg !! "TESTING" = Some "False"
  ∧ cfg !! "helper" = None.
Proof.
  cbv zeta.
  destruct (app_config_from_object isupper_ascii default_config "app" Config)
    as (_ & -> & _).
  repeat split; vm_compute; reflexivity.
Defined.

Lemma check_database_report_witness :
  (check_database status_name (start (numbered 12) healthy)).1 = Return ()
  ∧ length (stdout (check_database status_name (start (numbered 12) healthy)).2)
    = 4 + 10 + 1 + 12
  ∧ length (take 10 (numbered 12)) = 10.
Proof.
  destruct (check_database_report status_name (numbered 12) healthy)
    as [Hrun Hlen].
  - intros k _. reflexivity.
  - rewrite Hrun, Hlen. repeat split; reflexivity.
Defined.

Lemma white_ice_in_ice_terms_witness :
  white_ice
  ∈ select_rows (filter (term_string_ilike "%ice%") Term_query) rows
  ∧ (1 ≤ length
           (select_rows (filter (term_string_ilike "%ice%") Term_query) rows))%nat
  ∧ ∃ listing,
      stdout (check_database status_name (start rows healthy)).2
      = "White ice exists: True"
        :: listing
        ++ (newline +:+ "Terms containing 'ice': "
            +:+ pretty
                  (length
                     (select_rows
                        (filter (term_string_ilike "%ice%") Term_query) rows)))
        :: map ice_line
             (select_rows (filter (term_string_ilike "%ice%") Term_query) rows).
Proof.
  apply (white_ice_in_ice_terms status_name rows healthy white_ice
           (first (filter_by "White ice" Term_query) (start rows healthy)).2).
  - intros k _. reflexivity.
  - reflexivity.
Defined.

Lemma ice_count_matches_lines_witness :
  ∃ (before lines : list string) (k : nat),
    stdout (check_database status_name (start rows healthy)).2
    = before ++ (newline +:+ "Terms containing 'ice': " +:+ pretty k) :: lines
    ∧ length before = 4 + 10 `min` length rows
    ∧ length lines = k
    ∧ lines = map ice_line
                (List.filter (holds (term_string_ilike "%ice%")) rows).
Proof.
  apply (ice_count_matches_lines status_name rows healthy).
  intros k _. reflexivity.
Defined.

(** The whole run on the sample table. *)
Example sample_run :
  main status_name (start rows healthy)
  = (0%Z,
     after (start rows healthy)
       [ SELECT (limit 1 (filter_by "White ice" Term_query));
         SELECT (limit 1 (filter_by "Young ice" Term_query));
         SELECT_count Term_query;
         SELECT (limit 10 Term_query);
         SELECT (filter (term_string_ilike "%ice%") Term_query) ]
       [ "White ice exists: True";
         "Young ice exists: False";
         "Total terms in database: 4";
         newline +:+ "First 10 terms:";
         "- Sea fog (ID: 1, Status: published)";
         "- White ice (ID: 2, Status: published)";
         "- Pack ICE (ID: 3, Status: archived)";
         "- None (ID: 4, Status: draft)";
         newline +:+ "Terms containing 'ice': 2";
         "- White ice";
         "- Pack ICE" ]).
Proof. vm_compute. reflexivity. Qed.

(** The connection is lost when the count is sent: the two lookups were
    made and their lines printed, the line of the count was not, and the
    process exits with status 1. *)
Example sample_run_lost :
  main status_name (start rows (lost_at 2))
  = (1%Z,
     after (start rows (lost_at 2))
       [ SELECT (limit 1 (filter_by "White ice" Term_query));
         SELECT (limit 1 (filter_by "Young ice" Term_query));
         SELECT_count Term_query ]
       [ "White ice exists: True"; "Young ice exists: False" ]).
Proof. vm_compute. reflexivity. Qed.

(** An attribute whose name is not upper-case is not a setting. *)
Example helper_not_copied :
  FlaskApp.config (FlaskApp.app isupper_ascii default_config "app" Config)
    !! "helper"
  = None.
Proof. vm_compute. reflexivity. Qed.

(** The further properties on the sample data. *)

Lemma ice_filter_exact_witness :
  ∃ ice_terms σ',
    all (filter (term_string_ilike "%ice%") Term_query) (start rows healthy)
      = (Return ice_terms, σ')
    ∧ ice_terms `sublist_of` rows
    ∧ ∀ t, t ∈ ice_terms →
        ∃ s, term_string t = Some s ∧ contains_ignoring_case "ice" s.
Proof. apply (ice_filter_exact (start rows healthy)). reflexivity. Defined.

Lemma white_ice_exists_false_witness :
  stdout (check_database status_name
            (start [sea_fog; white_ice_lower] healthy)).2 !! 0
  = Some "White ice exists: False".
Proof.
  apply (white_ice_exists_false status_name [sea_fog; white_ice_lower] healthy).
  - intros k _. reflexivity.
  - intros t Hin.
    apply elem_of_cons in Hin as [->|Hin]; [discriminate|].
    apply elem_of_cons in Hin as [->|Hin]; [discriminate|].
    by apply elem_of_nil in Hin.
Defined.

Lemma young_ice_line_witness :
  stdout (check_database status_name (start (rows ++ [young_ice]) healthy)).2
    !! 1
  = Some "Young ice exists: True".
Proof.
  destruct (young_ice_line status_name (rows ++ [young_ice]) healthy)
    as [_ [_ Hfound]].
  - intros k _. reflexivity.
  - apply Hfound. exists young_ice. split; [|reflexivity].
    do 4 apply list_elem_of_further. apply list_elem_of_here.
Defined.

Lemma lookup_failure_prints_nothing_witness :
  (check_database status_name (start rows (lost_at 1))).1
  = Raise "OperationalError"
  ∧ stdout (check_database status_name (start rows (lost_at 1))).2 = [].
Proof.
  apply (lookup_failure_prints_nothing status_name rows (lost_at 1)).
  right. split; reflexivity.
Defined.

Lemma listing_failure_leaves_header_witness :
  (check_database status_name (start rows (lost_at 3))).1
  = Raise "OperationalError"
  ∧ length (stdout (check_database status_name (start rows (lost_at 3))).2)
    = 4
  ∧ last (stdout (check_database status_name (start rows (lost_at 3))).2)
    = Some (newline +:+ "First 10 terms:").
Proof.
  apply (listing_failure_leaves_header status_name rows (lost_at 3)).
  - intros k Hk. destruct k as [|[|[|k]]]; [reflexivity..|lia].
  - reflexivity.
Defined.

Lemma stops_at_first_failure_witness :
  (check_database status_name (start rows (lost_at 2))).1
  = Raise "OperationalError"
  ∧ length (issued (check_database status_name (start rows (lost_at 2))).2)
    = 3
  ∧ table (check_database status_name (start rows (lost_at 2))).2 = rows.
Proof.
  apply (stops_at_first_failure status_name rows (lost_at 2) 2).
  - lia.
  - intros j Hj. destruct j as [|[|j]]; [reflexivity..|lia].
  - reflexivity.
Defined.

Lemma second_run_repeats_witness :
  (check_database status_name
     (check_database status_name (start rows healthy)).2).1
  = Return ()
  ∧ table (check_database status_name
             (check_database status_name (start rows healthy)).2).2
    = rows
  ∧ stdout (check_database status_name
              (check_database status_name (start rows healthy)).2).2
    = stdout (check_database status_name (start rows healthy)).2
      ++ stdout (check_database status_name (start rows healthy)).2.
Proof.
  apply (second_run_repeats status_name rows healthy).
  intros k _. reflexivity.
Defined.

Lemma ice_count_at_most_total_witness :
  ∃ k,
    stdout (check_database status_name (start rows healthy)).2 !! 2
    = Some ("Total terms in database: " +:+ pretty (length rows))
    ∧ stdout (check_database status_name (start rows healthy)).2
        !! (4 + 10 `min` length rows)
      = Some (newline +:+ "Terms containing 'ice': " +:+ pretty k)
    ∧ (k ≤ length rows)%nat.
Proof.
  apply (ice_count_at_most_total status_name rows healthy).
  intros k _. reflexivity.
Defined.

Lemma both_exist_two_ice_terms_witness :
  ∃ k,
    (2 ≤ k)%nat
    ∧ stdout (check_database status_name
                (start (rows ++ [young_ice]) healthy)).2
        !! (4 + 10 `min` length (rows ++ [young_ice]))
      = Some (newline +:+ "Terms containing 'ice': " +:+ pretty k).
Proof.
  apply (both_exist_two_ice_terms status_name (rows ++ [young_ice]) healthy).
  - intros k _. reflexivity.
  - reflexivity.
  - reflexivity.
Defined.

Lemma listing_follows_table_witness :
  stdout (check_database status_name (start rows healthy)).2 !! 6
  = Some "- Pack ICE (ID: 3, Status: archived)".
Proof.
  apply (listing_follows_table status_name rows healthy 2 pack_ICE).
  - intros k _. reflexivity.
  - lia.
  - reflexivity.
Defined.

Lemma app_config_default_witness :
  FlaskApp.config (FlaskApp.app isupper_ascii default_config "app" Config)
    !! "helper"
  = default_config !! "helper".
Proof.
  apply (app_config_default isupper_ascii default_config "app" Config
           "helper").
  left. reflexivity.
Defined.

Lemma bare_filename_adds_empty_entry_witness :
  OsPath.dirname "app.py" = EmptyString
  ∧ OsPath.extend_sys_path "app.py" sys_path = sys_path ++ [EmptyString].
Proof.
  apply (bare_filename_adds_empty_entry "app.py" sys_path). reflexivity.
Defined.

Lemma script_folder_appended_witness :
  OsPath.extend_sys_path "/srv/yamz/app.py" sys_path
  = sys_path ++ ["/srv/yamz"].
Proof.
  apply (script_folder_appended "/srv/yam" "app.py" "z"%char sys_path).
  - discriminate.
  - reflexivity.
Defined.

Lemma dirname_of_root_file_witness : OsPath.dirname "/app.py" = "/".
Proof. apply (dirname_of_root_file "app.py"). reflexivity. Defined.


(** C1 as first stated fails on a row with a NUL before "ice": the row has
    "ice" in its name, the statement goes through, and the row is not among
    those returned. *)
Lemma ice_filter_superset_counterexample :
  faults (start [sea_fog; nul_ice] healthy)
    (length (issued (start [sea_fog; nul_ice] healthy))) = None
  ∧ nul_ice ∈ table (start [sea_fog; nul_ice] healthy)
  ∧ term_string nul_ice = Some ("a" +:+ String zero "ice")
  ∧ contains_ignoring_case "ice" ("a" +:+ String zero "ice")
  ∧ ¬ ∃ ice_terms σ',
        all (filter (term_string_ilike "%ice%") Term_query)
          (start [sea_fog; nul_ice] healthy)
          = (Return ice_terms, σ')
        ∧ nul_ice ∈ ice_terms.
Proof.
  split; [reflexivity|]. split.
  { apply list_elem_of_further, list_elem_of_here. }
  split; [reflexivity|]. split.
  { exists ("a" +:+ String zero EmptyString), EmptyString. reflexivity. }
  intros (ice_terms & σ' & Hall & Hin).
  vm_compute in Hall. injection Hall as <- _.
  by apply elem_of_nil in Hin.
Qed.

